(** * bench/lib/benchmark.js: the [Benchmark] base class and its sampling loop

    A shallow embedding of [class Benchmark]: the static [getArguments], the
    constructor, the three overridable hooks and [run] with its inner closure
    [next].

    Conventions of the embedding.
    - JavaScript numbers (timestamps, samples, [elapsed]) are binary64
      floating-point numbers, the primitive type [float]: [finish - start]
      and [elapsed += sample] round as they do in JavaScript, and
      [elapsed >= 300] is the IEEE comparison.
    - A hook is a JavaScript method: it may change the instance and the rest
      of the page, and it completes in one of four ways (plain return,
      promise that fulfils, synchronous throw, promise that rejects).  The
      state it leaves behind is the state at the moment it has settled.
    - [Promise.resolve(x).then(k)] is sequencing: [k] runs on the state left
      by [x] once [x] has settled successfully, and a failure of [x] skips
      [k] and becomes the failure of the whole chain.
    - [next] is recursive through promises and need not stop; the embedding
      bounds the number of [bench] invocations by a [fuel] argument and
      answers [Pending] when the bound is hit with the loop still running. *)

From Stdlib Require Import List String Bool Arith ZArith QArith Lia Floats.
Import ListNotations.

Open Scope float_scope.

Set Implicit Arguments.

(** ** JavaScript values held in [options] *)

(** [options : any].  Only the shape of the value matters to the base class,
    which stores it and never looks inside. *)
#[local] Set Warnings "-register-all".
Inductive any : Type :=
| undefined
| number (x : float)
| text (s : string)
| object (fields : list (string * any)).

(** [export type BenchmarkOptions = { label: string, options: any }] *)
Record BenchmarkOptions : Type := {
  label : string;
  options : any
}.

(** The two fields the class declares on an instance. *)
Record Benchmark : Type := {
  this_label : string;
  this_options : any
}.

(** [constructor(opts)] *)
Definition constructor (opts : BenchmarkOptions) : Benchmark :=
  {| this_label := label opts; this_options := options opts |}.

(** ** Hooks, completions and the observable trace *)

Inductive hook : Type := Setup | Bench | Teardown.

Section Harness.

(** Everything a hook can reach besides [this.label] and [this.options]:
    further fields a subclass puts on the instance, the page, the clock. *)
Variable Heap : Type.

(** Values that can be thrown or used as a rejection reason. *)
Variable Err : Type.

Record Store : Type := {
  this : Benchmark;
  heap : Heap
}.

(** How a call [Promise.resolve(this.h())] ends. *)
Inductive completion : Type :=
| Returns                (* returned a non-promise value *)
| Resolves               (* returned a promise, which fulfilled *)
| Throws (e : Err)       (* threw before returning *)
| Rejects (e : Err).     (* returned a promise, which rejected *)

Definition failure (c : completion) : option Err :=
  match c with
  | Returns | Resolves => None
  | Throws e | Rejects e => Some e
  end.

Definition method : Type := Store -> completion * Store.

(** A benchmark class: the static method and the three hooks. *)
Record BenchmarkClass : Type := {
  getArguments : list BenchmarkOptions;
  setup : method;
  bench : method;
  teardown : method
}.

(** The empty method body [{}]. *)
Definition noop : method := fun s => (Returns, s).

(** [class Benchmark] itself. *)
Definition Benchmark_class : BenchmarkClass := {|
  getArguments := [ {| label := ""; options := object [] |} ];
  setup := noop;
  bench := noop;
  teardown := noop
|}.

(** [class C extends Benchmark { ... }]: each member is either overridden or
    inherited. *)
Record Overrides : Type := {
  own_getArguments : option (list BenchmarkOptions);
  own_setup : option method;
  own_bench : option method;
  own_teardown : option method
}.

Definition inherit {A : Type} (own : option A) (base : A) : A :=
  match own with
  | Some m => m
  | None => base
  end.

Definition extends (base : BenchmarkClass) (o : Overrides) : BenchmarkClass := {|
  getArguments := inherit (own_getArguments o) (getArguments base);
  setup := inherit (own_setup o) (setup base);
  bench := inherit (own_bench o) (bench base);
  teardown := inherit (own_teardown o) (teardown base)
|}.

(** The same completion, reached through a promise: a plain return becomes
    a promise that fulfils, a throw a promise that rejects. *)
Definition deferred (c : completion) : completion :=
  match c with
  | Returns | Resolves => Resolves
  | Throws e | Rejects e => Rejects e
  end.

(** A method turned into one that always answers with a promise, as an
    [async] method does. *)
Definition promisified (m : method) : method :=
  fun s => let (c, s') := m s in (deferred c, s').

(** The class with [bench] and [teardown] promisified. *)
Definition Promisified (base : BenchmarkClass) : BenchmarkClass := {|
  getArguments := getArguments base;
  setup := setup base;
  bench := promisified (bench base);
  teardown := promisified (teardown base)
|}.

(** What an observer of a run sees, in order. *)
Inductive event : Type :=
| Invoked (h : hook)                          (* [this.h()] is called *)
| Settled (h : hook) (c : completion)         (* that call has settled *)
| Now (t : float)                                 (* [performance.now()] gave [t] *)
| Checked (elapsed : float) (samples : list float).   (* the stopping test is evaluated *)

(** The state of one call of [run]: the store, the two locals of [run]
    captured by [next], and the trace so far. *)
Record Run : Type := {
  store : Store;
  elapsed : float;
  samples : list float;
  trace : list event
}.

(** What the caller of [run] gets. *)
Inductive outcome : Type :=
| Fulfilled (result : list float)   (* the promise fulfils with [samples] *)
| Rejected (e : Err)            (* the promise rejects with [e] *)
| Thrown (e : Err)              (* [run] itself throws, no promise is returned *)
| Pending.                      (* still sampling when the fuel ran out *)

(** The class being run and the clock of the page. *)
Variable cls : BenchmarkClass.
Variable performance_now : Heap -> float * Heap.

Definition body (h : hook) : method :=
  match h with
  | Setup => setup cls
  | Bench => bench cls
  | Teardown => teardown cls
  end.

Definition observe (ev : event) (r : Run) : Run :=
  {| store := store r; elapsed := elapsed r; samples := samples r;
     trace := trace r ++ [ev] |}.

Definition with_store (s : Store) (r : Run) : Run :=
  {| store := s; elapsed := elapsed r; samples := samples r; trace := trace r |}.

(** [Promise.resolve(this.h())], up to the moment it has settled. *)
Definition invoke (h : hook) (r : Run) : completion * Run :=
  let r1 := observe (Invoked h) r in
  let (c, s) := body h (store r1) in
  (c, observe (Settled h c) (with_store s r1)).

(** [performance.now()] *)
Definition now (r : Run) : float * Run :=
  let (t, hp) := performance_now (heap (store r)) in
  (t, observe (Now t) (with_store {| this := this (store r); heap := hp |} r)).

(** [elapsed >= 300 && samples.length > 210] *)
Definition enough (el : float) (xs : list float) : bool :=
  (300 <=? el) && (210 <? List.length xs)%nat.

(** [elapsed += sample; samples.push(sample)] *)
Definition record (sample : float) (r : Run) : Run :=
  {| store := store r; elapsed := elapsed r + sample;
     samples := samples r ++ [sample]; trace := trace r |}.

(** The closure [next].  [fuel] bounds the number of [bench] invocations. *)
Fixpoint next (fuel : nat) (r : Run) : Run * outcome :=
  let r := observe (Checked (elapsed r) (samples r)) r in
  if enough (elapsed r) (samples r) then
    let (c, r1) := invoke Teardown r in
    match failure c with
    | None => (r1, Fulfilled (samples r1))
    | Some e => (r1, Rejected e)
    end
  else
    match fuel with
    | O => (r, Pending)
    | S fuel' =>
        let (start, r1) := now r in
        let (c, r2) := invoke Bench r1 in
        match failure c with
        | None =>
            let (finish, r3) := now r2 in
            let sample := finish - start in
            next fuel' (record sample r3)
        | Some e => (r2, Rejected e)
        end
    end.

(** [run()], on the instance and page in [s]. *)
Definition run (fuel : nat) (s : Store) : Run * outcome :=
  let r := {| store := s; elapsed := 0; samples := []; trace := [] |} in
  let (c, r1) := invoke Setup r in
  match c with
  | Returns | Resolves => next fuel r1
  | Throws e => (r1, Thrown e)
  | Rejects e => (r1, Rejected e)
  end.

(** ** Notions used to state properties of a run *)

(** The running total of a sequence of samples: what [elapsed] holds after
    the samples have been added to 0 one by one, from the first on, each
    addition rounded to binary64. *)
Definition total (xs : list float) : float := fold_left PrimFloat.add xs 0.

(** Both stopping conditions hold for the first [k] samples of [xs]. *)
Definition both (xs : list float) (k : nat) : Prop :=
  (300 <=? total (firstn k xs)) = true /\ (210 < k)%nat.

Definition is_invocation (h : hook) (ev : event) : bool :=
  match ev, h with
  | Invoked Setup, Setup | Invoked Bench, Bench | Invoked Teardown, Teardown => true
  | _, _ => false
  end.

(** How many times hook [h] was called in a trace. *)
Definition invocations (h : hook) (tr : list event) : nat :=
  List.length (filter (is_invocation h) tr).

Definition is_hook_event (ev : event) : bool :=
  match ev with
  | Invoked _ | Settled _ _ => true
  | Now _ | Checked _ _ => false
  end.

(** The hook invocations and settlements of a trace, in order. *)
Definition hook_events (tr : list event) : list event := filter is_hook_event tr.

Definition is_check (ev : event) : bool :=
  match ev with
  | Checked _ _ => true
  | _ => false
  end.

(** The trace without the evaluations of the stopping test: hooks and clock
    readings only. *)
Definition timeline (tr : list event) : list event :=
  filter (fun ev => negb (is_check ev)) tr.

Definition is_reading (ev : event) : bool :=
  match ev with
  | Now _ => true
  | _ => false
  end.

(** How many times the clock was read in a trace. *)
Definition readings (tr : list event) : nat :=
  List.length (filter is_reading tr).

(** One timed call of [bench]: the reading before, how the call ended, the
    reading after. *)
Definition measurement : Type := (float * completion * float)%type.

Definition duration (m : measurement) : float :=
  let '(start, _, finish) := m in finish - start.

Definition timed (m : measurement) : list event :=
  let '(start, c, finish) := m in
  [Now start; Invoked Bench; Settled Bench c; Now finish].

(** At an evaluation of the stopping test [elapsed] is the running total of
    the samples collected so far. *)
Definition check_agrees (ev : event) : Prop :=
  match ev with
  | Checked el xs => el = total xs
  | _ => True
  end.

(** The hook order setup, bench * N, teardown with N >= 1, each call made
    only after the previous one has settled. *)
Definition hook_order (tr : list event) : Prop :=
  exists (c0 : completion) (cs : list completion) (c1 : completion),
    hook_events tr =
      [Invoked Setup; Settled Setup c0]
      ++ flat_map (fun c => [Invoked Bench; Settled Bench c]) cs
      ++ [Invoked Teardown; Settled Teardown c1]
    /\ (1 <= List.length cs)%nat.

(** ** The traces of the loop, as a relation

    [loop el xs tr el' xs' o]: started with [elapsed = el] and
    [samples = xs], the closure [next] adds [tr] to the trace and ends with
    [elapsed = el'], [samples = xs'] and outcome [o]. *)

Inductive stops (el : float) (xs : list float) : list event -> outcome -> Prop :=
| stops_fulfilled c :
    enough el xs = true -> failure c = None ->
    stops el xs [Checked el xs; Invoked Teardown; Settled Teardown c]
          (Fulfilled xs)
| stops_teardown_failed c e :
    enough el xs = true -> failure c = Some e ->
    stops el xs [Checked el xs; Invoked Teardown; Settled Teardown c]
          (Rejected e)
| stops_bench_failed start c e :
    enough el xs = false -> failure c = Some e ->
    stops el xs [Checked el xs; Now start; Invoked Bench; Settled Bench c]
          (Rejected e)
| stops_pending :
    enough el xs = false ->
    stops el xs [Checked el xs] Pending.

Inductive loop :
  float -> list float -> list event -> float -> list float -> outcome -> Prop :=
| loop_end el xs tr o :
    stops el xs tr o ->
    loop el xs tr el xs o
| loop_sample el xs m tr el' xs' o :
    enough el xs = false ->
    failure (snd (fst m)) = None ->
    loop (el + duration m) (xs ++ [duration m]) tr el' xs' o ->
    loop el xs (Checked el xs :: timed m ++ tr) el' xs' o.

(** [ran tr el xs o]: a call of [run] leaves the trace [tr], the locals
    [elapsed = el] and [samples = xs], and the outcome [o]. *)
Inductive ran : list event -> float -> list float -> outcome -> Prop :=
| ran_loop c0 tr el xs o :
    failure c0 = None ->
    loop 0 [] tr el xs o ->
    ran ([Invoked Setup; Settled Setup c0] ++ tr) el xs o
| ran_setup_threw e :
    ran [Invoked Setup; Settled Setup (Throws e)] 0 [] (Thrown e)
| ran_setup_rejected e :
    ran [Invoked Setup; Settled Setup (Rejects e)] 0 [] (Rejected e).

(** No call of hook [h] in the trace failed. *)
Definition no_failure_of (h : hook) (tr : list event) : Prop :=
  forall c : completion, In (Settled h c) tr -> failure c = None.

(** The same as a test on traces. *)
Definition settled_well (h : hook) (ev : event) : bool :=
  match ev with
  | Settled h' c =>
      match h, h', failure c with
      | Setup, Setup, Some _ | Bench, Bench, Some _
      | Teardown, Teardown, Some _ => false
      | _, _, _ => true
      end
  | _ => true
  end.

(** A measurement whose call of [bench] succeeded. *)
Definition succeeded (m : measurement) : Prop := failure (snd (fst m)) = None.

(** ** What a class and a clock do, store by store *)

(** The three steps around one call of [bench], started on store [s]:
    read the clock, call [bench], read the clock again. *)
Definition timed_call (s : Store) : measurement * Store :=
  let (start, hp1) := performance_now (heap s) in
  let (c, s2) := bench cls {| this := this s; heap := hp1 |} in
  let (finish, hp3) := performance_now (heap s2) in
  ((start, c, finish), {| this := this s2; heap := hp3 |}).

(** The run state after one round of [next] whose call of [bench]
    succeeded. *)
Definition sampled (r : Run) : Run :=
  let (m, s) := timed_call (store r) in
  {| store := s;
     elapsed := elapsed r + duration m;
     samples := samples r ++ [duration m];
     trace := trace r ++ Checked (elapsed r) (samples r) :: timed m |}.

(** The run state in which [next] is first called, after [setup] has
    settled on store [s]. *)
Definition started (s : Store) : Run :=
  {| store := snd (setup cls s);
     elapsed := 0;
     samples := [];
     trace := [Invoked Setup; Settled Setup (fst (setup cls s))] |}.

(** Hook [h] never fails, whatever the store it is called on. *)
Definition always_succeeds (h : hook) : Prop :=
  forall s : Store, failure (fst (body h s)) = None.

(** The stores at which [next] can find the run started on [s0]: the one
    [setup] leaves, and those left by further timed calls of [bench]. *)
Inductive reachable (s0 : Store) : Store -> Prop :=
| reachable_setup :
    failure (fst (setup cls s0)) = None ->
    reachable s0 (snd (setup cls s0))
| reachable_sample s :
    reachable s0 s ->
    succeeded (fst (timed_call s)) ->
    reachable s0 (snd (timed_call s)).

(** Every successful timed call of [bench] in the run started on [s0]
    measures a duration in [P]. *)
Definition measures (s0 : Store) (P : float -> Prop) : Prop :=
  forall s : Store,
    reachable s0 s ->
    succeeded (fst (timed_call s)) -> P (duration (fst (timed_call s))).

End Harness.

Arguments Returns {Err}.
Arguments Resolves {Err}.
Arguments Invoked {Err} h.
Arguments Now {Err} t.
Arguments Checked {Err} elapsed samples.
Arguments Fulfilled {Err} result.
Arguments Pending {Err}.
Arguments noop {Heap Err} s.
Arguments Benchmark_class {Heap Err}.

(** ** Binary64 numbers as integers

    A finite binary64 number is a multiple of 2^-1074; [ticks] is that
    multiple, for the numbers that are not negative.  The bound 300 of the
    stopping test is [C300] ticks. *)

Definition ticks (f : spec_float) : Z :=
  match f with
  | S754_finite false m e => (Zpos m * 2 ^ (e + 1074))%Z
  | _ => 0%Z
  end.

(** [f] is at least [c] ticks (and not a NaN). *)
Definition at_least (c : Z) (f : spec_float) : Prop :=
  match f with
  | S754_zero _ => (c <= 0)%Z
  | S754_finite false m e => (c <= Zpos m * 2 ^ (e + 1074))%Z
  | S754_infinity false => True
  | _ => False
  end.

Definition nonneg (f : spec_float) : Prop :=
  match f with
  | S754_zero _ | S754_finite false _ _ | S754_infinity false => True
  | _ => False
  end.




(** The value of a binary64 number as a rational ([0] for what is not a
    finite number), and the mathematical sum of a sequence of samples. *)
Definition value (x : float) : Q :=
  match Prim2SF x with
  | S754_finite s m e =>
      let v := if s then Zneg m else Zpos m in
      match e with
      | Zneg p => v # (2 ^ p)
      | _ => inject_Z (v * 2 ^ e)
      end
  | _ => 0%Q
  end.

Definition exact_sum (xs : list float) : Q :=
  fold_right (fun x acc => Qred (value x + acc)) 0%Q xs.


(** ** A scripted page, for concrete runs

    The page counts the readings of its clock and the calls of [bench].
    The clock is scripted: the n-th reading of [performance.now()] returns
    [reading n].  A scripted [bench] ends its k-th call as told. *)

Record Page : Type := {
  reads : nat;
  calls : nat
}.

Definition page_now (reading : nat -> float) (p : Page) : float * Page :=
  (reading (reads p), {| reads := S (reads p); calls := calls p |}).

Definition scripted (ending : nat -> completion string) : method Page string :=
  fun s =>
    let p := heap s in
    (ending (calls p),
     {| this := this s;
        heap := {| reads := reads p; calls := S (calls p) |} |}).

(** A clock that reads 0 before every call of [bench] and [d] after it. *)
Definition laps (d : float) (n : nat) : float :=
  if Nat.even n then 0 else d.

(** A clock that never goes back: 0, 1 - 2^-53, 1, 2, 2, 3, 3, 4, ... *)
Definition drifting (n : nat) : float :=
  match n with
  | O => 0
  | S O => 0x1.fffffffffffffp-1
  | _ => of_uint63 (Uint63.of_Z (Z.of_nat (Nat.div2 (S n))))
  end.


(** A clock that is set back during the first call of [bench], from 2 to 0,
    and on which every later call takes 2. *)
Definition set_back (n : nat) : float :=
  match n with
  | O => 2
  | S O => 0
  | _ => laps 2 n
  end.

(** [class Steady extends Benchmark { bench() { ... } }] whose [bench]
    returns a promise that fulfils. *)
Definition Steady : BenchmarkClass Page string :=
  extends Benchmark_class
    {| own_getArguments := None;
       own_setup := None;
       own_bench := Some (scripted (fun _ => Resolves));
       own_teardown := None |}.

(** As [Steady], but the [m]-th call of [bench] throws [e]. *)
Definition Flaky (m : nat) (e : string) : BenchmarkClass Page string :=
  extends Benchmark_class
    {| own_getArguments := None;
       own_setup := None;
       own_bench :=
         Some (scripted (fun k => if (S k =? m)%nat then Throws e else Resolves));
       own_teardown := None |}.

(** A class whose [setup] returns a promise that rejects with [e]. *)
Definition Unready (e : string) : BenchmarkClass Page string :=
  extends Benchmark_class
    {| own_getArguments := None;
       own_setup := Some (fun s => (Rejects e, s));
       own_bench := None;
       own_teardown := None |}.

(** As [Steady], with a [teardown] that throws [e]. *)
Definition Untidy (e : string) : BenchmarkClass Page string :=
  extends Benchmark_class
    {| own_getArguments := None;
       own_setup := None;
       own_bench := Some (scripted (fun _ => Resolves));
       own_teardown := Some (fun s => (Throws e, s)) |}.

(** A class whose [bench] is synchronous. *)
Definition Plain : BenchmarkClass Page string :=
  extends Benchmark_class
    {| own_getArguments := None;
       own_setup := None;
       own_bench := Some (scripted (fun _ => Returns));
       own_teardown := None |}.

(** A fresh instance of the default configuration on a page whose clock has
    not been read. *)
Definition fresh : Store Page :=
  {| this := constructor {| label := ""; options := object [] |};
     heap := {| reads := 0; calls := 0 |} |}.

(** ** Binary64 addition and comparison

    What the loop needs of IEEE arithmetic, from the specification of
    binary64 addition ([SFadd], rounding to nearest even) and comparison
    ([SFleb]): a sum of two numbers that are not negative is within half a
    unit in the last place of the exact sum, and the comparison is the
    comparison of the values. *)

Section Binary64.

Local Open Scope Z_scope.
Local Unset Implicit Arguments.

Lemma digits2_pos_bounds (m : positive) :
  2 ^ (Zpos (digits2_pos m) - 1) <= Zpos m < 2 ^ Zpos (digits2_pos m).
Proof.
  induction m as [m IH|m IH|]; cbn [digits2_pos].
  - rewrite Pos2Z.inj_succ.
    replace (Z.succ (Zpos (digits2_pos m)) - 1) with (Z.succ (Zpos (digits2_pos m) - 1)) by lia.
    rewrite !Z.pow_succ_r by lia. lia.
  - rewrite Pos2Z.inj_succ.
    replace (Z.succ (Zpos (digits2_pos m)) - 1) with (Z.succ (Zpos (digits2_pos m) - 1)) by lia.
    rewrite !Z.pow_succ_r by lia. lia.
  - cbn. lia.
Qed.

Lemma valid_finite (s : bool) (m : positive) (e : Z) :
  valid_binary (S754_finite s m e) = true ->
  -1074 <= e <= 971 /\ Zpos m < 2 ^ 53 /\ (-1074 < e -> 2 ^ 52 <= Zpos m).
Proof.
  cbn [SpecFloat.valid_binary]. unfold bounded, canonical_mantissa, fexp, SpecFloat.emin.
  change prec with 53. change emax with 1024.
  rewrite andb_true_iff, Z.eqb_eq, Z.leb_le.
  intros [Hc He].
  pose proof (digits2_pos_bounds m) as [Hlo Hhi].
  set (d := Zpos (digits2_pos m)) in *.
  assert (Hd : d <= 53) by lia.
  split; [lia|]. split.
  - apply Z.lt_le_trans with (1 := Hhi). apply Z.pow_le_mono_r; lia.
  - intros Hgt. assert (d = 53) by lia. subst d. rewrite H in Hlo. exact Hlo.
Qed.

Lemma scale_lt (a b c P R : Z) :
  0 < P -> 2 <= R -> 0 <= a -> a < 2 * c -> c <= b ->
  a * P < b * (P * R).
Proof.
  intros HP HR Ha Hac Hcb.
  assert (a * P < 2 * c * P) by (apply Z.mul_lt_mono_pos_r; lia).
  assert (c * 2 <= b * R) by (apply Z.mul_le_mono_nonneg; lia).
  assert (c * 2 * P <= b * R * P) by (apply Z.mul_le_mono_nonneg_r; lia).
  replace (b * (P * R)) with (b * R * P) by ring.
  lia.
Qed.

Lemma leb_finite (m1 : positive) (e1 : Z) (m2 : positive) (e2 : Z) :
  valid_binary (S754_finite false m1 e1) = true ->
  valid_binary (S754_finite false m2 e2) = true ->
  SFleb (S754_finite false m1 e1) (S754_finite false m2 e2) = true <->
  Zpos m1 * 2 ^ (e1 + 1074) <= Zpos m2 * 2 ^ (e2 + 1074).
Proof.
  intros V1 V2.
  apply valid_finite in V1, V2.
  destruct V1 as (He1 & Hm1 & Hn1), V2 as (He2 & Hm2 & Hn2).
  unfold SFleb, SFcompare.
  destruct (Z.compare_spec e1 e2) as [->|Hlt|Hgt].
  - rewrite Pos.compare_cont_spec. cbn [Pos.switch_Eq].
    assert (0 < 2 ^ (e2 + 1074)) by (apply Z.pow_pos_nonneg; lia).
    destruct (Pos.compare_spec m1 m2) as [->|H1|H1].
    + split; [lia | reflexivity].
    + apply Pos2Z.pos_lt_pos in H1. split; [intros _ | reflexivity].
      apply Z.mul_le_mono_nonneg_r; lia.
    + apply Pos2Z.pos_lt_pos in H1. split; [discriminate | intros Hle].
      apply Z.mul_le_mono_pos_r in Hle; lia.
  - split; [intros _|reflexivity].
    replace (e2 + 1074) with ((e1 + 1074) + (e2 - e1)) by lia.
    rewrite (Z.pow_add_r 2 (e1 + 1074) (e2 - e1)) by lia.
    assert (0 < 2 ^ (e1 + 1074)) by (apply Z.pow_pos_nonneg; lia).
    assert (2 ^ 1 <= 2 ^ (e2 - e1)) by (apply Z.pow_le_mono_r; lia).
    specialize (Hn2 ltac:(lia)).
    apply Z.lt_le_incl, scale_lt with (c := 2 ^ 52); try assumption; lia.
  - split; [discriminate|]. intros Hle. exfalso.
    replace (e1 + 1074) with ((e2 + 1074) + (e1 - e2)) in Hle by lia.
    rewrite (Z.pow_add_r 2 (e2 + 1074) (e1 - e2)) in Hle by lia.
    assert (0 < 2 ^ (e2 + 1074)) by (apply Z.pow_pos_nonneg; lia).
    assert (2 ^ 1 <= 2 ^ (e1 - e2)) by (apply Z.pow_le_mono_r; lia).
    specialize (Hn1 ltac:(lia)).
    assert (Z.pos m2 * 2 ^ (e2 + 1074)
            < Z.pos m1 * (2 ^ (e2 + 1074) * 2 ^ (e1 - e2)))
      by (apply scale_lt with (c := 2 ^ 52); try assumption; lia).
    lia.
Qed.




















Lemma above_tiny (c : Z) : 2 ^ 1030 <= c -> 0 < c.
Proof.
  intros H. apply Z.lt_le_trans with (2 := H).
  apply Z.ltb_lt. vm_compute. reflexivity.
Qed.



Lemma leb_at_least (c : Z) (x y : float) :
  0 < c ->
  (x <=? y)%float = true ->
  at_least c (Prim2SF x) -> at_least c (Prim2SF y).
Proof.
  intros Hc. rewrite FloatAxioms.leb_spec.
  pose proof (Prim2SF_valid x) as Vx. pose proof (Prim2SF_valid y) as Vy.
  destruct (Prim2SF x) as [sx|[]| |[] mx ex]; cbn [at_least]; try contradiction;
    destruct (Prim2SF y) as [sy|[]| |[] my ey]; cbn [at_least SFleb SFcompare];
    try discriminate; try (intros; exact I); try (intros; lia).
  intros Hle Hx. apply (leb_finite mx ex my ey Vx Vy) in Hle. lia.
Qed.

Lemma at_least_tiny : at_least (2 ^ 1030) (Prim2SF 0x1p-44).
Proof. apply Z.leb_le. vm_compute. reflexivity. Qed.


End Binary64.

(** ** Properties of the sampling loop *)

Section Properties.

Variables Heap Err : Type.
Variable cls : BenchmarkClass Heap Err.
Variable performance_now : Heap -> float * Heap.

Lemma run_unfold (fuel : nat) (s : Store Heap) :
  run cls performance_now fuel s =
  let r := {| store := s; elapsed := 0; samples := []; trace := [] |} in
  let (c, r1) := invoke cls Setup r in
  match c with
  | Returns | Resolves => next cls performance_now fuel r1
  | Throws e => (r1, Thrown e)
  | Rejects e => (r1, Rejected e)
  end.
Proof. reflexivity. Qed.

Local Abbreviation next := (next cls performance_now).
Local Abbreviation run := (run cls performance_now).

(** *** Unfolding one round of [next] *)

Lemma next_unfold (fuel : nat) (r : Run Heap Err) :
  next fuel r =
  let r0 := observe (Checked (elapsed r) (samples r)) r in
  if enough (elapsed r) (samples r) then
    let (c, r1) := invoke cls Teardown r0 in
    match failure c with
    | None => (r1, Fulfilled (samples r1))
    | Some e => (r1, Rejected e)
    end
  else
    match fuel with
    | O => (r0, Pending)
    | S fuel' =>
        let (start, r1) := now performance_now r0 in
        let (c, r2) := invoke cls Bench r1 in
        match failure c with
        | None =>
            let (finish, r3) := now performance_now r2 in
            next fuel' (record (finish - start) r3)
        | Some e => (r2, Rejected e)
        end
    end.
Proof. destruct fuel; reflexivity. Qed.

Lemma invoke_spec (h : hook) (r : Run Heap Err) :
  invoke cls h r =
  (fst (body cls h (store r)),
   {| store := snd (body cls h (store r));
      elapsed := elapsed r;
      samples := samples r;
      trace := trace r ++ [Invoked h; Settled h (fst (body cls h (store r)))] |}).
Proof.
  unfold invoke, observe, with_store; simpl.
  destruct (body cls h (store r)) as [c s]; simpl.
  rewrite <- app_assoc. reflexivity.
Qed.

Lemma now_spec (r : Run Heap Err) :
  now performance_now r =
  (fst (performance_now (heap (store r))),
   {| store := {| this := this (store r);
                  heap := snd (performance_now (heap (store r))) |};
      elapsed := elapsed r;
      samples := samples r;
      trace := trace r ++ [Now (fst (performance_now (heap (store r))))] |}).
Proof.
  unfold now, observe, with_store; simpl.
  destruct (performance_now (heap (store r))) as [t hp]; reflexivity.
Qed.

(** *** The loop relation describes [next] *)

Lemma next_loop (fuel : nat) (r : Run Heap Err) :
  exists tr : list (event Err),
    trace (fst (next fuel r)) = trace r ++ tr /\
    loop (elapsed r) (samples r) tr
         (elapsed (fst (next fuel r))) (samples (fst (next fuel r)))
         (snd (next fuel r)).
Proof.
  revert r; induction fuel as [|fuel IH]; intros r; rewrite next_unfold;
    cbv zeta; destruct (enough (elapsed r) (samples r)) eqn:E.
  - rewrite invoke_spec. cbn [store observe].
    destruct (failure (fst (body cls Teardown (store r)))) eqn:F; cbn.
    all: eexists; split; [rewrite <- app_assoc; reflexivity|].
    all: apply loop_end; econstructor; eassumption.
  - cbn. eexists; split; [reflexivity|].
    apply loop_end; constructor; assumption.
  - rewrite invoke_spec. cbn [store observe].
    destruct (failure (fst (body cls Teardown (store r)))) eqn:F; cbn.
    all: eexists; split; [rewrite <- app_assoc; reflexivity|].
    all: apply loop_end; econstructor; eassumption.
  - rewrite now_spec, invoke_spec. cbn [store observe heap this elapsed samples trace].
    match goal with |- context [failure ?c] => destruct (failure c) eqn:F end.
    + cbn. eexists; split; [rewrite <- !app_assoc; reflexivity|].
      apply loop_end; econstructor; eassumption.
    + rewrite now_spec. cbn [store observe heap this elapsed samples trace record].
      match goal with |- context [next fuel ?r'] =>
        destruct (IH r') as (tr & Htr & Hloop) end.
      cbn [store observe heap this elapsed samples trace record] in Htr, Hloop.
      eexists; split.
      * rewrite Htr, <- !app_assoc. reflexivity.
      * cbn [app].
        match goal with
        | |- context [Now ?a :: Invoked Bench :: Settled Bench ?c :: Now ?b :: tr] =>
            change (Now a :: Invoked Bench :: Settled Bench c :: Now b :: tr)
              with (timed (a, c, b) ++ tr)
        end.
        apply loop_sample; [assumption | exact F | exact Hloop].
Qed.

Lemma run_ran (fuel : nat) (s : Store Heap) :
  ran (trace (fst (run fuel s))) (elapsed (fst (run fuel s)))
      (samples (fst (run fuel s))) (snd (run fuel s)).
Proof.
  rewrite run_unfold. cbv zeta. rewrite invoke_spec. cbn [store body].
  destruct (fst (setup cls s)) as [| |e|e] eqn:C.
  3: cbn; apply ran_setup_threw.
  3: cbn; apply ran_setup_rejected.
  all: match goal with |- context [next ?n ?r'] =>
         destruct (next_loop n r') as (tr & Htr & Hloop) end.
  all: cbn [trace elapsed samples app] in *.
  all: rewrite Htr; apply ran_loop; [reflexivity | exact Hloop].
Qed.

(** *** Arithmetic of the stopping test *)

Lemma total_snoc (xs : list float) (x : float) :
  total (xs ++ [x]) = total xs + x.
Proof. unfold total. rewrite fold_left_app. reflexivity. Qed.

Lemma enough_true_iff (el : float) (xs : list float) :
  enough el xs = true <-> (300 <=? el) = true /\ (210 < List.length xs)%nat.
Proof. unfold enough. rewrite andb_true_iff, Nat.ltb_lt. tauto. Qed.

Lemma enough_both (el : float) (xs : list float) :
  el = total xs ->
  enough el xs = true <-> both xs (List.length xs).
Proof.
  intros H. rewrite enough_true_iff. unfold both.
  rewrite firstn_all, H. tauto.
Qed.

(** *** Properties of the loop, by induction on its derivations *)

Lemma loop_agrees el xs tr el' xs' (o : outcome Err) :
  loop el xs tr el' xs' o ->
  el = total xs ->
  Forall (@check_agrees Err) tr /\ el' = total xs'.
Proof.
  induction 1 as [el xs tr o Hstop | el xs [[start c] finish] tr el' xs' o E F L IH];
    intros Hsum.
  - split; [|assumption].
    destruct Hstop; repeat constructor; assumption.
  - destruct IH as [IH1 IH2].
    + rewrite total_snoc, Hsum. reflexivity.
    + split; [|assumption].
      constructor; [exact Hsum|].
      apply Forall_app; split; [|assumption].
      repeat constructor.
Qed.

Lemma loop_shape el xs tr el' xs' (o : outcome Err) :
  loop el xs tr el' xs' o ->
  exists (ms : list (measurement Err)) (tail : list (event Err)),
    Forall (@succeeded Err) ms /\
    xs' = xs ++ map (@duration Err) ms /\
    timeline tr = flat_map (@timed Err) ms ++ timeline tail /\
    stops el' xs' tail o.
Proof.
  induction 1 as [el xs tr o Hstop | el xs m tr el' xs' o E F L IH].
  - exists [], tr. rewrite app_nil_r. repeat split; [constructor | assumption].
  - destruct IH as (ms & tail & Hok & Hxs & Htl & Hstop).
    exists (m :: ms), tail. repeat split.
    + constructor; assumption.
    + rewrite Hxs, <- app_assoc. reflexivity.
    + unfold timeline in *. cbn [filter is_check negb].
      rewrite filter_app, Htl.
      destruct m as [[start c] finish]; cbn. reflexivity.
    + assumption.
Qed.

Lemma loop_first_index el xs tr el' xs' (o : outcome Err) :
  loop el xs tr el' xs' o ->
  el = total xs ->
  forall k : nat,
    (List.length xs <= k < List.length xs')%nat -> ~ both xs' k.
Proof.
  induction 1 as [el xs tr o Hstop | el xs m tr el' xs' o E F L IH];
    intros Hsum k Hk.
  - lia.
  - destruct (loop_shape L) as (ms & _ & _ & Hxs & _).
    destruct (Nat.eq_dec k (List.length xs)) as [->|Hne].
    + intros [H300 H210].
      rewrite Hxs, <- app_assoc, firstn_app, firstn_all, Nat.sub_diag in H300.
      cbn [firstn] in H300. rewrite app_nil_r, <- Hsum in H300.
      assert (enough el xs = true) by (apply enough_true_iff; split; assumption).
      congruence.
    + apply IH.
      * rewrite total_snoc, Hsum. reflexivity.
      * rewrite length_app. cbn [List.length]. lia.
Qed.

Lemma loop_teardown el xs tr el' xs' (o : outcome Err) :
  loop el xs tr el' xs' o ->
  In (Invoked Teardown) tr <-> enough el' xs' = true.
Proof.
  induction 1 as [el xs tr o Hstop | el xs [[start c] finish] tr el' xs' o E F L IH].
  - destruct Hstop; cbn; intuition (try discriminate; try congruence).
  - rewrite <- IH. cbn. intuition (try discriminate).
Qed.

Lemma invocations_app (h : hook) (tr1 tr2 : list (event Err)) :
  invocations h (tr1 ++ tr2) = (invocations h tr1 + invocations h tr2)%nat.
Proof. unfold invocations. rewrite filter_app, length_app. reflexivity. Qed.

Lemma loop_bench_count el xs tr el' xs' (o : outcome Err) :
  loop el xs tr el' xs' o ->
  (forall c, In (Settled Bench c) tr -> failure c = None) ->
  (invocations Bench tr + List.length xs = List.length xs')%nat.
Proof.
  induction 1 as [el xs tr o Hstop | el xs [[start c] finish] tr el' xs' o E F L IH];
    intros Hall.
  - destruct Hstop as [c ? ?|c e ? ?|start c e ? Hf|?]; try reflexivity.
    rewrite (Hall c) in Hf; [discriminate | cbn; auto].
  - change (Checked el xs :: timed (start, c, finish) ++ tr)
      with ((Checked el xs :: timed (start, c, finish)) ++ tr).
    rewrite invocations_app, <- IH.
    + rewrite length_app. cbn. lia.
    + intros c' Hin. apply Hall. cbn. auto 6.
Qed.

Lemma loop_bench_failure el xs tr el' xs' (o : outcome Err) c e :
  loop el xs tr el' xs' o ->
  In (Settled Bench c) tr ->
  failure c = Some e ->
  o = Rejected e /\
  (invocations Bench tr + List.length xs = S (List.length xs'))%nat /\
  invocations Teardown tr = 0%nat /\
  exists tr0, tr = tr0 ++ [Settled Bench c].
Proof.
  induction 1 as [el xs tr o Hstop | el xs [[start c'] finish] tr el' xs' o E F L IH];
    intros Hin Hf.
  - destruct Hstop as [c' ? ?|c' e' ? ?|start c' e' ? Hf'|?]; cbn in Hin;
      intuition (try discriminate).
    all: match goal with H : Settled _ _ = Settled _ _ |- _ => injection H as -> end.
    all: try congruence; try reflexivity.
    eexists [_; _; _]. reflexivity.
  - cbn in Hin. destruct Hin as [Hin|[Hin|[Hin|[Hin|[Hin|Hin]]]]]; try discriminate.
    + injection Hin as ->. cbn in F. congruence.
    + destruct (IH Hin Hf) as (Ho & Hn & Ht & tr0 & Htr0).
      change (Checked el xs :: timed (start, c', finish) ++ tr)
        with ((Checked el xs :: timed (start, c', finish)) ++ tr).
      rewrite !invocations_app, Ht. rewrite length_app in Hn. cbn in Hn |- *.
      repeat split; [assumption | lia |].
      rewrite Htr0.
      exists (Checked el xs :: Now start :: Invoked Bench :: Settled Bench c'
                :: Now finish :: tr0).
      reflexivity.
Qed.

(** *** Rounds of the loop on stores *)


Lemma next_step (fuel : nat) (r : Run Heap Err) :
  enough (elapsed r) (samples r) = false ->
  succeeded (fst (timed_call cls performance_now (store r))) ->
  next (S fuel) r = next fuel (sampled cls performance_now r).
Proof.
  intros E B. rewrite next_unfold. cbv zeta. rewrite E, now_spec, invoke_spec.
  unfold sampled, timed_call, succeeded in *.
  cbn [store observe heap this elapsed samples trace body].
  destruct (performance_now (heap (store r))) as [start hp1]; cbn [fst snd] in *.
  destruct (bench cls {| this := this (store r); heap := hp1 |}) as [c s2];
    cbn [fst snd] in *.
  destruct (performance_now (heap s2)) as [finish hp3] eqn:N; cbn [fst snd] in *.
  rewrite B, now_spec. cbn [store heap this elapsed samples trace].
  rewrite N. cbn [fst snd]. unfold record; cbn [store elapsed samples trace].
  rewrite <- !app_assoc. reflexivity.
Qed.



Lemma sampled_reachable (s0 : Store Heap) (r : Run Heap Err) :
  reachable cls performance_now s0 (store r) ->
  succeeded (fst (timed_call cls performance_now (store r))) ->
  reachable cls performance_now s0 (store (sampled cls performance_now r)).
Proof.
  intros R B. unfold sampled.
  pose proof (reachable_sample R B) as R'.
  destruct (timed_call cls performance_now (store r)) as [m s']. exact R'.
Qed.

Lemma started_reachable (s0 : Store Heap) :
  failure (fst (setup cls s0)) = None ->
  reachable cls performance_now s0 (store (started cls s0)).
Proof. intros F. apply reachable_setup, F. Qed.


Lemma timed_call_succeeded (s : Store Heap) :
  always_succeeds cls Bench ->
  succeeded (fst (timed_call cls performance_now s)).
Proof.
  intros H. unfold timed_call, succeeded.
  destruct (performance_now (heap s)) as [start hp1].
  specialize (H {| this := this s; heap := hp1 |}). cbn [body] in H.
  destruct (bench cls _) as [c s2].
  destruct (performance_now (heap s2)) as [finish hp3]. exact H.
Qed.




Lemma no_failure_of_test (h : hook) (tr : list (event Err)) :
  forallb (settled_well h) tr = true -> no_failure_of h tr.
Proof.
  intros H c Hin. rewrite forallb_forall in H. specialize (H _ Hin).
  cbn in H. destruct h, (failure c); solve [reflexivity | discriminate].
Qed.


(** *** Hook events of the loop *)

Lemma loop_hook_events el xs tr el' xs' (o : outcome Err) :
  loop el xs tr el' xs' o ->
  o <> Pending ->
  no_failure_of Bench tr ->
  exists (cs : list (completion Err)) (c1 : completion Err),
    hook_events tr =
      flat_map (fun c => [Invoked Bench; Settled Bench c]) cs
      ++ [Invoked Teardown; Settled Teardown c1] /\
    (List.length xs + List.length cs = List.length xs')%nat /\
    enough el' xs' = true.
Proof.
  induction 1 as [el xs tr o Hstop | el xs [[start c] finish] tr el' xs' o E F L IH];
    intros Ho Hb.
  - destruct Hstop as [c ? ?|c e ? ?|start c e ? Hf|?].
    + exists [], c. cbn. auto.
    + exists [], c. cbn. auto.
    + rewrite (Hb c) in Hf; [discriminate | cbn; auto].
    + congruence.
  - destruct (IH Ho) as (cs & c1 & Hev & Hlen & Hen).
    { intros c' Hin. apply Hb. cbn. auto 6. }
    exists (c :: cs), c1. repeat split; [| |assumption].
    + unfold hook_events in *. cbn. rewrite Hev. reflexivity.
    + rewrite length_app in Hlen. cbn in Hlen |- *. lia.
Qed.

Lemma timeline_invocations (h : hook) (tr : list (event Err)) :
  invocations h (timeline tr) = invocations h tr.
Proof.
  unfold invocations, timeline.
  induction tr as [|ev tr IH]; [reflexivity|].
  destruct ev as [h'| | |]; cbn; try destruct h', h; cbn; rewrite ?IH; reflexivity.
Qed.

Lemma timed_invocations (ms : list (measurement Err)) :
  invocations Bench (flat_map (@timed Err) ms) = List.length ms.
Proof.
  induction ms as [|[[start c] finish] ms IH]; [reflexivity|].
  cbn [flat_map]. rewrite invocations_app, IH. reflexivity.
Qed.

(** *** Runs that are still sampling *)

Lemma next_pending_count (fuel : nat) (r : Run Heap Err) :
  snd (next fuel r) = Pending ->
  List.length (samples (fst (next fuel r))) = (List.length (samples r) + fuel)%nat.
Proof.
  revert r; induction fuel as [|fuel IH]; intros r; rewrite next_unfold; cbv zeta;
    destruct (enough (elapsed r) (samples r)).
  - rewrite invoke_spec. destruct (failure _); discriminate.
  - cbn. lia.
  - rewrite invoke_spec. destruct (failure _); discriminate.
  - rewrite now_spec, invoke_spec.
    cbn [store observe heap this elapsed samples trace].
    destruct (failure _); [discriminate|].
    rewrite now_spec. cbn [store observe heap this elapsed samples trace].
    intros H. rewrite (IH _ H). cbn [record samples].
    rewrite length_app. cbn [List.length]. lia.
Qed.

Lemma run_pending_count (fuel : nat) (s : Store Heap) :
  snd (run fuel s) = Pending ->
  List.length (samples (fst (run fuel s))) = fuel.
Proof.
  rewrite run_unfold. cbv zeta. rewrite invoke_spec. cbn [store body].
  destruct (fst (setup cls s)); try discriminate;
    intros H; rewrite (next_pending_count _ _ H); reflexivity.
Qed.

Lemma loop_pending el xs tr el' xs' (o : outcome Err) :
  loop el xs tr el' xs' o ->
  no_failure_of Bench tr ->
  enough el' xs' = false ->
  o = Pending.
Proof.
  induction 1 as [el xs tr o Hstop | el xs [[start c] finish] tr el' xs' o E F L IH];
    intros Hall Hen.
  - destruct Hstop as [c ? ?|c e ? ?|start c e ? Hf|?]; try congruence.
    rewrite (Hall c) in Hf; [discriminate | cbn; auto].
  - apply IH; [|exact Hen].
    intros c' Hin. apply Hall. cbn. auto 6.
Qed.

(** ** The claims about [run] *)

(** C1 (as amended).  In a run in which no call of [bench] fails, [bench] is
    called once per collected sample; the two stopping conditions (the
    running total of the samples, added up in binary64 as [elapsed] is,
    >= 300; number of samples > 210) never hold together at a sample count
    below the final one; [teardown] is reached exactly when they hold
    together at the final count; and a fulfilled run returns exactly these
    samples.  Sampling goes on for as long as a condition is unmet: if
    [setup] succeeded and the conditions do not both hold at the final
    count, the run has taken every sample there was room for, [fuel] of
    them, and is still sampling. *)
Theorem loop_stops_at_first_index (fuel : nat) (s : Store Heap) :
  let r := fst (run fuel s) in
  no_failure_of Bench (trace r) ->
  invocations Bench (trace r) = List.length (samples r) /\
  (forall k : nat, (k < List.length (samples r))%nat -> ~ both (samples r) k) /\
  (In (Invoked Teardown) (trace r) <-> both (samples r) (List.length (samples r))) /\
  (forall xs : list float,
      snd (run fuel s) = Fulfilled xs ->
      xs = samples r /\ In (Invoked Teardown) (trace r)) /\
  (no_failure_of Setup (trace r) ->
   ~ both (samples r) (List.length (samples r)) ->
   snd (run fuel s) = Pending /\ List.length (samples r) = fuel).
Proof.
  intros r Hb. subst r.
  pose proof (run_ran fuel s) as R.
  pose proof (run_pending_count fuel s) as Hcount.
  inversion R as [c0 tr el xs o F L Htr Hel Hxs Ho | e Htr Hel Hxs Ho | e Htr Hel Hxs Ho].
  - rewrite <- Htr in Hb.
    assert (Hb' : no_failure_of Bench tr).
    { intros c Hin. apply Hb. cbn. auto. }
    assert (H0 : 0 = total []) by reflexivity.
    pose proof (loop_agrees L H0) as [_ Hsum].
    split; [|split; [|split; [|split]]].
    + change (Invoked Setup :: Settled Setup c0 :: tr)
        with ([Invoked Setup; Settled Setup c0] ++ tr).
      rewrite invocations_app, <- (loop_bench_count L Hb'). cbn. lia.
    + intros k Hk. apply (loop_first_index L H0). cbn. lia.
    + rewrite <- (enough_both _ Hsum), <- (loop_teardown L). cbn.
      intuition discriminate.
    + intros ys Hy.
      destruct (loop_shape L) as (ms & tail & _ & _ & _ & St).
      rewrite Hy in St. split.
      * inversion St; reflexivity.
      * cbn. right; right. apply (loop_teardown L). inversion St; assumption.
    + intros _ Hnot.
      assert (Hen : enough (elapsed (fst (run fuel s)))
                           (samples (fst (run fuel s))) = false).
      { destruct (enough _ _) eqn:Hen; [|reflexivity].
        exfalso. apply Hnot, (enough_both _ Hsum), Hen. }
      pose proof (loop_pending L Hb' Hen) as HP.
      split; [exact HP | exact (Hcount HP)].
  - cbn. split; [reflexivity | split; [intros k Hk; lia | split; [|split]]].
    + unfold both. cbn. intuition (try discriminate; try lia).
    + discriminate.
    + intros Hs _. exfalso.
      specialize (Hs (Throws e)). cbn in Hs.
      assert (Some e = None) by auto. discriminate.
  - cbn. split; [reflexivity | split; [intros k Hk; lia | split; [|split]]].
    + unfold both. cbn. intuition (try discriminate; try lia).
    + discriminate.
    + intros Hs _. exfalso.
      specialize (Hs (Rejects e)). cbn in Hs.
      assert (Some e = None) by auto. discriminate.
Qed.

(** C9 (as amended).  Whenever the stopping test is evaluated, [elapsed] is
    the running total of the samples collected so far, that is their sum
    taken from the first sample on with every addition rounded to binary64;
    hence a fulfilled run returns at least 211 samples whose running total
    is at least 300. *)
Theorem elapsed_is_sum_of_samples (fuel : nat) (s : Store Heap) :
  Forall (@check_agrees Err) (trace (fst (run fuel s))) /\
  (forall xs : list float,
      snd (run fuel s) = Fulfilled xs ->
      (211 <= List.length xs)%nat /\ (300 <=? total xs) = true).
Proof.
  pose proof (run_ran fuel s) as R.
  inversion R as [c0 tr el xs o F L Htr Hel Hxs Ho | e Htr Hel Hxs Ho | e Htr Hel Hxs Ho].
  - assert (H0 : 0 = total []) by reflexivity.
    pose proof (loop_agrees L H0) as [Hall Hsum].
    split.
    + repeat constructor. exact Hall.
    + intros ys Hy.
      destruct (loop_shape L) as (ms & tail & _ & _ & _ & St).
      rewrite Hy in St.
      assert (E : enough (elapsed (fst (run fuel s))) ys = true /\
                  ys = samples (fst (run fuel s))).
      { inversion St; subst; auto. }
      destruct E as [E ->]. apply enough_true_iff in E. rewrite <- Hsum.
      split; [lia | tauto].
  - split; [repeat constructor | discriminate].
  - split; [repeat constructor | discriminate].
Qed.

(** C2 (as amended).  In a run that has come to an end and in which neither
    [setup] nor any call of [bench] failed, the hook events are exactly:
    [setup] invoked and settled, then N >= 1 times [bench] invoked and
    settled, then [teardown] invoked and settled; every invocation comes
    directly after the settlement of the previous one. *)
Theorem hook_order_of_completed_run (fuel : nat) (s : Store Heap) :
  let r := fst (run fuel s) in
  snd (run fuel s) <> Pending ->
  no_failure_of Setup (trace r) ->
  no_failure_of Bench (trace r) ->
  hook_order (trace r).
Proof.
  intros r Ho Hs Hb. subst r.
  pose proof (run_ran fuel s) as R.
  inversion R as [c0 tr el xs o F L Htr Hel Hxs Hout | e Htr Hel Hxs Hout
                 | e Htr Hel Hxs Hout].
  - rewrite <- Htr in Hb.
    assert (Hb' : no_failure_of Bench tr).
    { intros c Hin. apply Hb. cbn. auto. }
    destruct (loop_hook_events L Ho Hb') as (cs & c1 & Hev & Hlen & Hen).
    exists c0, cs, c1. split.
    + unfold hook_events in *. cbn. rewrite Hev. reflexivity.
    + apply enough_true_iff in Hen. cbn in Hlen. lia.
  - rewrite <- Htr in Hs. specialize (Hs (Throws e)). cbn in Hs.
    assert (Some e = None) by auto. discriminate.
  - rewrite <- Htr in Hs. specialize (Hs (Rejects e)). cbn in Hs.
    assert (Some e = None) by auto. discriminate.
Qed.

(** C3 (as amended).  If a call of [bench] fails, by throwing or by a
    rejected promise, with reason [e], then the run rejects with that same
    [e]; the failed call is the last thing that happens in the run, so it is
    not retried and no later sample is taken; [bench] has been called once
    more than there are recorded samples, so no sample is recorded for the
    failed call; and [teardown] is not called. *)
Theorem bench_failure_aborts_run (fuel : nat) (s : Store Heap)
        (c : completion Err) (e : Err) :
  let r := fst (run fuel s) in
  In (Settled Bench c) (trace r) ->
  failure c = Some e ->
  snd (run fuel s) = Rejected e /\
  invocations Bench (trace r) = S (List.length (samples r)) /\
  invocations Teardown (trace r) = 0%nat /\
  exists tr0 : list (event Err), trace r = tr0 ++ [Settled Bench c].
Proof.
  intros r Hin Hf. subst r.
  pose proof (run_ran fuel s) as R.
  inversion R as [c0 tr el xs o F L Htr Hel Hxs Hout | e' Htr Hel Hxs Hout
                 | e' Htr Hel Hxs Hout];
    rewrite <- Htr in Hin; cbn in Hin.
  - destruct Hin as [Hin|[Hin|Hin]]; try discriminate.
    destruct (loop_bench_failure c L Hin Hf) as (Ho & Hn & Ht & tr0 & Htr0).
    split; [exact Ho|].
    change (Invoked Setup :: Settled Setup c0 :: tr)
      with ([Invoked Setup; Settled Setup c0] ++ tr).
    rewrite !invocations_app, Ht. cbn in Hn |- *.
    split; [lia | split; [reflexivity|]].
    exists (Invoked Setup :: Settled Setup c0 :: tr0). rewrite Htr0. reflexivity.
  - intuition discriminate.
  - intuition discriminate.
Qed.

(** *** Fulfilled runs *)

Lemma fulfilled_run (fuel : nat) (s : Store Heap) (xs : list float) :
  snd (run fuel s) = Fulfilled xs ->
  exists (c0 : completion Err) (ms : list (measurement Err)) (c1 : completion Err),
    timeline (trace (fst (run fuel s))) =
      [Invoked Setup; Settled Setup c0]
      ++ flat_map (@timed Err) ms
      ++ [Invoked Teardown; Settled Teardown c1] /\
    xs = map (@duration Err) ms /\
    xs = samples (fst (run fuel s)) /\
    List.length xs = invocations Bench (trace (fst (run fuel s))) /\
    In (Invoked Teardown) (trace (fst (run fuel s))) /\
    both xs (List.length xs) /\
    (forall k : nat, (k < List.length xs)%nat -> ~ both xs k).
Proof.
  intros Hx.
  pose proof (run_ran fuel s) as R.
  inversion R as [c0 tr el ys o F L Htr Hel Hxs Hout | e Htr Hel Hxs Hout
                 | e Htr Hel Hxs Hout]; [|congruence..].
  destruct (loop_shape L) as (ms & tail & Hok & Hys & Htl & St).
  rewrite Hx in St. cbn [app] in Hys.
  assert (Htail : exists c1, tail = [Checked (elapsed (fst (run fuel s))) xs;
                                     Invoked Teardown; Settled Teardown c1]
                             /\ xs = samples (fst (run fuel s))
                             /\ enough (elapsed (fst (run fuel s))) xs = true).
  { inversion St; subst; eauto. }
  destruct Htail as (c1 & -> & Hsame & Hen).
  assert (Hmap : xs = map (@duration Err) ms) by congruence.
  assert (H0 : 0 = total []) by reflexivity.
  pose proof (loop_agrees L H0) as [_ Hsum].
  exists c0, ms, c1. split; [|split; [|split; [|split; [|split; [|split]]]]].
  - unfold timeline in *. cbn. rewrite Htl. reflexivity.
  - exact Hmap.
  - exact Hsame.
  - rewrite <- (timeline_invocations Bench).
    change (Invoked Setup :: Settled Setup c0 :: tr)
      with ([Invoked Setup; Settled Setup c0] ++ tr).
    unfold timeline at 1. rewrite filter_app. fold (timeline tr).
    rewrite Htl, !invocations_app, timed_invocations, Hmap, length_map.
    cbn. lia.
  - cbn. right; right. apply (loop_teardown L). rewrite <- Hsame. exact Hen.
  - rewrite <- Hsame in Hsum. apply (enough_both _ Hsum). exact Hen.
  - intros k Hk. rewrite Hsame in *. apply (loop_first_index L H0). cbn. lia.
Qed.

Lemma run_next (fuel : nat) (s : Store Heap) :
  failure (fst (setup cls s)) = None ->
  run fuel s = next fuel (started cls s).
Proof.
  intros H. rewrite run_unfold. unfold started. cbv zeta. rewrite invoke_spec.
  cbn [store body elapsed samples trace app] in *.
  destruct (fst (setup cls s)); try discriminate; reflexivity.
Qed.




(** C7.  In a fulfilled run the returned array lists, in order, the
    durations measured around the successive calls of [bench]: its k-th
    element is the clock reading taken after the k-th call settled minus the
    reading taken before that call, and its length is the number of calls
    of [bench]. *)
Theorem samples_in_collection_order (fuel : nat) (s : Store Heap) (xs : list float) :
  snd (run fuel s) = Fulfilled xs ->
  exists (c0 : completion Err) (ms : list (measurement Err)) (c1 : completion Err),
    timeline (trace (fst (run fuel s))) =
      [Invoked Setup; Settled Setup c0]
      ++ flat_map (@timed Err) ms
      ++ [Invoked Teardown; Settled Teardown c1] /\
    xs = map (@duration Err) ms /\
    (forall k : nat,
        nth_error xs k = option_map (@duration Err) (nth_error ms k)) /\
    List.length xs = invocations Bench (trace (fst (run fuel s))).
Proof.
  intros Hx.
  destruct (fulfilled_run fuel s Hx) as (c0 & ms & c1 & Htl & Hmap & _ & Hn & _).
  exists c0, ms, c1. split; [exact Htl | split; [exact Hmap | split; [|exact Hn]]].
  intros k. rewrite Hmap. apply nth_error_map.
Qed.


(** *** A clock that measures every call alike *)




(** *** Running totals that keep growing *)



Lemma at_least_delta (delta d : float) :
  (0x1p-44 <=? delta) = true ->
  (delta <=? d) = true ->
  at_least (2 ^ 1030) (Prim2SF d).
Proof.
  intros Hd H.
  apply leb_at_least with (2 := H); [apply above_tiny, Z.le_refl|].
  apply leb_at_least with (2 := Hd); [apply above_tiny, Z.le_refl|].
  exact at_least_tiny.
Qed.


(** *** The instance across a run *)

Lemma next_keeps_this (fuel : nat) (r : Run Heap Err) :
  (forall (h : hook) (s : Store Heap), this (snd (body cls h s)) = this s) ->
  this (store (fst (next fuel r))) = this (store r).
Proof.
  intros H. revert r; induction fuel as [|fuel IH]; intros r; rewrite next_unfold;
    cbv zeta; destruct (enough (elapsed r) (samples r)).
  - rewrite invoke_spec. destruct (failure _); cbn; apply (H Teardown).
  - reflexivity.
  - rewrite invoke_spec. destruct (failure _); cbn; apply (H Teardown).
  - rewrite now_spec, invoke_spec.
    cbn [store observe heap this elapsed samples trace].
    destruct (failure _); [exact (H Bench _)|].
    rewrite now_spec. cbn [store observe heap this elapsed samples trace].
    rewrite IH. exact (H Bench _).
Qed.

Lemma run_keeps_this (fuel : nat) (s : Store Heap) :
  (forall (h : hook) (s : Store Heap), this (snd (body cls h s)) = this s) ->
  this (store (fst (run fuel s))) = this s.
Proof.
  intros H. rewrite run_unfold. cbv zeta. rewrite invoke_spec. cbn [store body].
  destruct (fst (setup cls s)); cbn [fst store]; rewrite ?next_keeps_this by exact H;
    cbn; apply (H Setup).
Qed.

(** ** Further properties of [run] *)

(** *** How the loop ends *)

Lemma loop_no_setup el xs tr el' xs' (o : outcome Err) :
  loop el xs tr el' xs' o ->
  invocations Setup tr = 0%nat /\
  forall c : completion Err, ~ In (Settled Setup c) tr.
Proof.
  induction 1 as [el xs tr o Hstop | el xs [[start c] finish] tr el' xs' o E F L IH].
  - destruct Hstop; split; try reflexivity; cbn; intuition discriminate.
  - destruct IH as [IH1 IH2]. split.
    + change (Checked el xs :: timed (start, c, finish) ++ tr)
        with ((Checked el xs :: timed (start, c, finish)) ++ tr).
      rewrite invocations_app, IH1. reflexivity.
    + intros c' Hin. cbn in Hin.
      destruct Hin as [Hin|[Hin|[Hin|[Hin|[Hin|Hin]]]]]; try discriminate.
      exact (IH2 c' Hin).
Qed.

Lemma loop_ends_with_teardown el xs tr el' xs' (o : outcome Err) :
  loop el xs tr el' xs' o ->
  enough el' xs' = true ->
  exists (tr0 : list (event Err)) (c : completion Err),
    tr = tr0 ++ [Invoked Teardown; Settled Teardown c] /\
    invocations Teardown tr0 = 0%nat /\
    (forall c' : completion Err, ~ In (Settled Teardown c') tr0) /\
    (invocations Bench tr0 + List.length xs = List.length xs')%nat /\
    o = match failure c with
        | None => Fulfilled xs'
        | Some e => Rejected e
        end.
Proof.
  induction 1 as [el xs tr o Hstop | el xs [[start c] finish] tr el' xs' o E F L IH];
    intros Hen.
  - destruct Hstop as [c ? Hf|c e ? Hf|start c e ? Hf|?]; try congruence.
    + exists [Checked el xs], c. rewrite Hf. cbn. intuition discriminate.
    + exists [Checked el xs], c. rewrite Hf. cbn. intuition discriminate.
  - destruct (IH Hen) as (tr0 & c1 & Htr & Ht & Hs & Hn & Ho).
    exists (Checked el xs :: timed (start, c, finish) ++ tr0), c1.
    split; [|split; [|split; [|split]]].
    + rewrite Htr. cbn. reflexivity.
    + change (Checked el xs :: timed (start, c, finish) ++ tr0)
        with ((Checked el xs :: timed (start, c, finish)) ++ tr0).
      rewrite invocations_app, Ht. reflexivity.
    + intros c' Hin. cbn in Hin.
      destruct Hin as [Hin|[Hin|[Hin|[Hin|[Hin|Hin]]]]]; try discriminate.
      exact (Hs c' Hin).
    + change (Checked el xs :: timed (start, c, finish) ++ tr0)
        with ((Checked el xs :: timed (start, c, finish)) ++ tr0).
      rewrite invocations_app. rewrite length_app in Hn. cbn in Hn |- *. lia.
    + exact Ho.
Qed.

Lemma loop_without_teardown el xs tr el' xs' (o : outcome Err) :
  loop el xs tr el' xs' o ->
  enough el' xs' = false ->
  invocations Teardown tr = 0%nat /\
  forall c : completion Err, ~ In (Settled Teardown c) tr.
Proof.
  induction 1 as [el xs tr o Hstop | el xs [[start c] finish] tr el' xs' o E F L IH];
    intros Hen.
  - destruct Hstop; try congruence; split; try reflexivity; cbn;
      intuition discriminate.
  - destruct (IH Hen) as [IH1 IH2]. split.
    + change (Checked el xs :: timed (start, c, finish) ++ tr)
        with ((Checked el xs :: timed (start, c, finish)) ++ tr).
      rewrite invocations_app, IH1. reflexivity.
    + intros c' Hin. cbn in Hin.
      destruct Hin as [Hin|[Hin|[Hin|[Hin|[Hin|Hin]]]]]; try discriminate.
      exact (IH2 c' Hin).
Qed.

Lemma next_stalled (s0 : Store Heap) (fuel : nat) (r : Run Heap Err) :
  always_succeeds cls Bench ->
  measures cls performance_now s0 (fun d => d = 0) ->
  reachable cls performance_now s0 (store r) ->
  elapsed r = 0 ->
  snd (next fuel r) = Pending /\
  List.length (samples (fst (next fuel r))) = (List.length (samples r) + fuel)%nat.
Proof.
  intros HB HM. revert r; induction fuel as [|fuel IH]; intros r HR Hel.
  - assert (E : enough (elapsed r) (samples r) = false) by (rewrite Hel; reflexivity).
    rewrite next_unfold. cbv zeta. rewrite E. cbn. split; [reflexivity | lia].
  - assert (E : enough (elapsed r) (samples r) = false) by (rewrite Hel; reflexivity).
    pose proof (timed_call_succeeded (store r) HB) as B.
    rewrite next_step by assumption.
    specialize (HM (store r) HR B).
    destruct (IH (sampled cls performance_now r)) as [IH1 IH2].
    + apply sampled_reachable; assumption.
    + unfold sampled.
      destruct (timed_call cls performance_now (store r)) as [m s'].
      cbn [elapsed fst] in *. rewrite Hel, HM. reflexivity.
    + split; [exact IH1|]. rewrite IH2. unfold sampled.
      destruct (timed_call cls performance_now (store r)) as [m s'].
      cbn [samples]. rewrite length_app. cbn [List.length]. lia.
Qed.

Lemma readings_app (tr1 tr2 : list (event Err)) :
  readings (tr1 ++ tr2) = (readings tr1 + readings tr2)%nat.
Proof. unfold readings. rewrite filter_app, length_app. reflexivity. Qed.

Lemma loop_readings el xs tr el' xs' (o : outcome Err) :
  loop el xs tr el' xs' o ->
  no_failure_of Bench tr ->
  (readings tr + 2 * List.length xs = 2 * List.length xs')%nat.
Proof.
  induction 1 as [el xs tr o Hstop | el xs [[start c] finish] tr el' xs' o E F L IH];
    intros Hall.
  - destruct Hstop as [c ? ?|c e ? ?|start c e ? Hf|?]; try reflexivity.
    rewrite (Hall c) in Hf; [discriminate | cbn; auto].
  - change (Checked el xs :: timed (start, c, finish) ++ tr)
      with ((Checked el xs :: timed (start, c, finish)) ++ tr).
    rewrite readings_app.
    assert (Hall' : no_failure_of Bench tr).
    { intros c' Hin. apply Hall. cbn. auto 6. }
    specialize (IH Hall'). rewrite length_app in IH. cbn in IH |- *. lia.
Qed.

(** X1.  A failure of [setup] ends the run at once: [bench] and [teardown]
    are never called and no sample is taken.  The reason reaches the caller
    as an exception thrown by [run] itself when [setup] threw, and as a
    rejected promise when [setup] returned a promise that rejected. *)
Theorem setup_failure_aborts_run (fuel : nat) (s : Store Heap)
        (c : completion Err) (e : Err) :
  let r := fst (run fuel s) in
  In (Settled Setup c) (trace r) ->
  failure c = Some e ->
  trace r = [Invoked Setup; Settled Setup c] /\
  samples r = [] /\
  invocations Bench (trace r) = 0%nat /\
  invocations Teardown (trace r) = 0%nat /\
  snd (run fuel s) = match c with
                     | Throws _ => Thrown e
                     | _ => Rejected e
                     end.
Proof.
  intros r Hin Hf. subst r.
  pose proof (run_ran fuel s) as R.
  inversion R as [c0 tr el xs o F L Htr Hel Hxs Hout | e' Htr Hel Hxs Hout
                 | e' Htr Hel Hxs Hout];
    rewrite <- Htr in Hin; cbn in Hin.
  - destruct (loop_no_setup L) as [_ Hno].
    destruct Hin as [Hin|[Hin|Hin]]; try discriminate.
    + injection Hin as ->. congruence.
    + destruct (Hno c Hin).
  - destruct Hin as [Hin|[Hin|Hin]]; try discriminate; [|destruct Hin].
    injection Hin as <-. cbn in Hf. injection Hf as ->.
    repeat split; reflexivity.
  - destruct Hin as [Hin|[Hin|Hin]]; try discriminate; [|destruct Hin].
    injection Hin as <-. cbn in Hf. injection Hf as ->.
    repeat split; reflexivity.
Qed.

(** X2.  A failure of [teardown] makes the run reject with teardown's
    reason, whether [teardown] threw or its promise rejected; the samples,
    at least 211 with a running total of at least 300, were all collected
    by then, one for each call of [bench], and are not delivered.  Nothing
    happens after the failed call. *)
Theorem teardown_failure_rejects_run (fuel : nat) (s : Store Heap)
        (c : completion Err) (e : Err) :
  let r := fst (run fuel s) in
  In (Settled Teardown c) (trace r) ->
  failure c = Some e ->
  snd (run fuel s) = Rejected e /\
  (211 <= List.length (samples r))%nat /\
  (300 <=? total (samples r)) = true /\
  invocations Bench (trace r) = List.length (samples r) /\
  exists tr0 : list (event Err),
    trace r = tr0 ++ [Invoked Teardown; Settled Teardown c].
Proof.
  intros r Hin Hf. subst r.
  pose proof (run_ran fuel s) as R.
  inversion R as [c0 tr el xs o F L Htr Hel Hxs Hout | e' Htr Hel Hxs Hout
                 | e' Htr Hel Hxs Hout];
    rewrite <- Htr in Hin; cbn in Hin.
  - destruct Hin as [Hin|[Hin|Hin]]; try discriminate.
    assert (H0 : 0 = total []) by reflexivity.
    pose proof (loop_agrees L H0) as [_ Hsum].
    destruct (enough (elapsed (fst (run fuel s))) (samples (fst (run fuel s))))
      eqn:Hen.
    + destruct (loop_ends_with_teardown L Hen)
        as (tr0 & c1 & Htr0 & Ht & Hs & Hn & Ho).
      assert (Hc : c1 = c).
      { rewrite Htr0 in Hin. apply in_app_or in Hin.
        destruct Hin as [Hin|Hin]; [destruct (Hs c Hin)|].
        cbn in Hin. destruct Hin as [Hin|[Hin|Hin]]; try discriminate;
          [|destruct Hin].
        injection Hin as ->. reflexivity. }
      subst c1. rewrite Hf in Ho. apply enough_true_iff in Hen.
      split; [exact Ho | split; [lia | split; [rewrite <- Hsum; tauto | split]]].
      * change (Invoked Setup :: Settled Setup c0 :: tr)
          with ([Invoked Setup; Settled Setup c0] ++ tr).
        rewrite Htr0, !invocations_app. cbn in Hn |- *. lia.
      * exists (Invoked Setup :: Settled Setup c0 :: tr0). rewrite Htr0.
        reflexivity.
    + destruct (loop_without_teardown L Hen) as [_ Hno]. destruct (Hno c Hin).
  - intuition discriminate.
  - intuition discriminate.
Qed.

(** X3.  In every run, however it ends, [setup] is called exactly once and
    first, [teardown] is called at most once, and a call of [teardown] and
    its settlement are the last two events of the run. *)
Theorem setup_once_teardown_last (fuel : nat) (s : Store Heap) :
  let r := fst (run fuel s) in
  hd_error (trace r) = Some (Invoked Setup) /\
  invocations Setup (trace r) = 1%nat /\
  (invocations Teardown (trace r) <= 1)%nat /\
  (In (Invoked Teardown) (trace r) ->
   exists (tr0 : list (event Err)) (c : completion Err),
     trace r = tr0 ++ [Invoked Teardown; Settled Teardown c] /\
     invocations Teardown tr0 = 0%nat).
Proof.
  intros r. subst r.
  pose proof (run_ran fuel s) as R.
  inversion R as [c0 tr el xs o F L Htr Hel Hxs Hout | e' Htr Hel Hxs Hout
                 | e' Htr Hel Hxs Hout].
  - destruct (loop_no_setup L) as [Hs _].
    change (Invoked Setup :: Settled Setup c0 :: tr)
      with ([Invoked Setup; Settled Setup c0] ++ tr).
    rewrite !invocations_app, Hs.
    destruct (enough (elapsed (fst (run fuel s))) (samples (fst (run fuel s))))
      eqn:Hen.
    + destruct (loop_ends_with_teardown L Hen)
        as (tr0 & c1 & Htr0 & Ht & _ & _ & _).
      split; [reflexivity | split; [reflexivity | split]].
      * rewrite Htr0, invocations_app, Ht. cbn. lia.
      * intros _. exists ([Invoked Setup; Settled Setup c0] ++ tr0), c1.
        rewrite Htr0, invocations_app, Ht, <- app_assoc. split; reflexivity.
    + destruct (loop_without_teardown L Hen) as [Ht _].
      split; [reflexivity | split; [reflexivity | split]].
      * rewrite Ht. cbn. lia.
      * intros Hin. apply in_app_or in Hin. destruct Hin as [Hin|Hin].
        -- cbn in Hin. intuition discriminate.
        -- apply (loop_teardown L) in Hin. congruence.
  - cbn. split; [reflexivity | split; [reflexivity | split; [lia|]]].
    intuition discriminate.
  - cbn. split; [reflexivity | split; [reflexivity | split; [lia|]]].
    intuition discriminate.
Qed.

(** X4.  The loop has no cut-off of its own: if [setup] and [bench] never
    fail and the clock stands still, so that every call of [bench] is
    measured at 0, the run never ends; however many calls of [bench] it is
    given room for, it makes them all and is still sampling, and
    [teardown] is not called. *)
Theorem run_never_ends_on_stalled_clock (fuel : nat) (s : Store Heap) :
  always_succeeds cls Setup ->
  always_succeeds cls Bench ->
  measures cls performance_now s (fun d => d = 0) ->
  snd (run fuel s) = Pending /\
  List.length (samples (fst (run fuel s))) = fuel /\
  invocations Bench (trace (fst (run fuel s))) = fuel /\
  invocations Teardown (trace (fst (run fuel s))) = 0%nat.
Proof.
  intros HS HB HM.
  pose proof (HS s) as F. cbn [body] in F.
  destruct (@next_stalled s fuel (started cls s) HB HM) as [HP Hlen].
  { apply started_reachable, F. }
  { reflexivity. }
  rewrite <- (run_next fuel s F) in HP, Hlen.
  cbn [started samples List.length Nat.add] in Hlen.
  split; [exact HP | split; [exact Hlen|]].
  pose proof (run_ran fuel s) as R.
  inversion R as [c0 tr el xs o F' L Htr Hel Hxs Hout | e' Htr Hel Hxs Hout
                 | e' Htr Hel Hxs Hout]; [|congruence..].
  assert (Hb : no_failure_of Bench tr).
  { intros c Hin.
    destruct (failure c) as [e|] eqn:Hf; [|reflexivity].
    destruct (loop_bench_failure c L Hin Hf) as (Ho & _).
    rewrite HP in Ho. discriminate. }
  split.
  - change (Invoked Setup :: Settled Setup c0 :: tr)
      with ([Invoked Setup; Settled Setup c0] ++ tr).
    rewrite invocations_app. pose proof (loop_bench_count L Hb) as Hn.
    cbn in Hn |- *. rewrite Hlen in Hn. lia.
  - destruct (enough (elapsed (fst (run fuel s))) (samples (fst (run fuel s))))
      eqn:Hen.
    + destruct (loop_ends_with_teardown L Hen) as (_ & c1 & _ & _ & _ & _ & Ho).
      rewrite HP in Ho. destruct (failure c1); discriminate.
    + destruct (loop_without_teardown L Hen) as [Ht _].
      change (Invoked Setup :: Settled Setup c0 :: tr)
        with ([Invoked Setup; Settled Setup c0] ++ tr).
      rewrite invocations_app, Ht. reflexivity.
Qed.

(** X8.  Only the calls of [bench] are timed: in a run in which no call of
    [bench] fails the clock is read exactly twice per collected sample, so
    never around [setup] or [teardown]. *)
Theorem clock_read_twice_per_sample (fuel : nat) (s : Store Heap) :
  let r := fst (run fuel s) in
  no_failure_of Bench (trace r) ->
  readings (trace r) = (2 * List.length (samples r))%nat.
Proof.
  intros r Hb. subst r.
  pose proof (run_ran fuel s) as R.
  inversion R as [c0 tr el xs o F L Htr Hel Hxs Hout | e' Htr Hel Hxs Hout
                 | e' Htr Hel Hxs Hout].
  - rewrite <- Htr in Hb.
    assert (Hb' : no_failure_of Bench tr).
    { intros c Hin. apply Hb. cbn. auto. }
    pose proof (loop_readings L Hb') as Hr.
    change (Invoked Setup :: Settled Setup c0 :: tr)
      with ([Invoked Setup; Settled Setup c0] ++ tr).
    rewrite readings_app. cbn in Hr |- *. lia.
  - reflexivity.
  - reflexivity.
Qed.

(** X5.  A fulfilled run returns exactly 211 samples precisely when the
    running total of its first 211 samples is already 300 or more; if it
    returns more, the running total of all but the last of them is not. *)
Theorem sample_count_of_fulfilled_run (fuel : nat) (s : Store Heap)
        (xs : list float) :
  snd (run fuel s) = Fulfilled xs ->
  (List.length xs = 211%nat <-> (300 <=? total (firstn 211 xs)) = true) /\
  ((211 < List.length xs)%nat -> (300 <=? total (removelast xs)) = false).
Proof.
  intros Hx.
  destruct (fulfilled_run fuel s Hx)
    as (_ & _ & _ & _ & _ & _ & _ & _ & Hboth & Hfirst).
  split; [split|].
  - intros Hlen. destruct Hboth as [H300 _]. rewrite Hlen in H300. exact H300.
  - intros H300. destruct Hboth as [_ Hgt].
    destruct (le_lt_dec (List.length xs) 211) as [Hle|Hlt]; [lia|].
    exfalso. apply (Hfirst 211%nat Hlt). split; [exact H300 | lia].
  - intros Hlen. rewrite removelast_firstn_len.
    destruct (300 <=? total (firstn (pred (List.length xs)) xs)) eqn:H300;
      [|reflexivity].
    exfalso. apply (Hfirst (pred (List.length xs))); [lia|].
    split; [exact H300 | lia].
Qed.


End Properties.

Section BaseClass.

Variables Heap Err : Type.
Variable performance_now : Heap -> float * Heap.

(** C6.  A class that does not define [getArguments] of its own answers the
    static call, for which no instance is needed, with the one-element
    array [[{ label: '', options: {} }]]. *)
Theorem default_getArguments (o : Overrides Heap Err) :
  own_getArguments o = None ->
  getArguments (extends Benchmark_class o)
  = [ {| label := ""; options := object [] |} ] /\
  List.length (getArguments (extends Benchmark_class o)) = 1%nat.
Proof.
  intros H. unfold extends; cbn. rewrite H. split; reflexivity.
Qed.

(** C10.  Running an instance of the base class, whose three hooks are the
    empty methods, leaves [this.label] and [this.options] as the
    constructor set them from the configuration, however far the run
    gets. *)
Theorem run_keeps_label_and_options
        (fuel : nat) (opts : BenchmarkOptions) (hp : Heap) :
  let r := fst (run (@Benchmark_class Heap Err) performance_now fuel
                    {| this := constructor opts; heap := hp |}) in
  this_label (this (store r)) = label opts /\
  this_options (this (store r)) = options opts.
Proof.
  intros r. subst r. rewrite run_keeps_this.
  - split; reflexivity.
  - intros [] s; reflexivity.
Qed.

End BaseClass.

Section Promises.

Variables Heap Err : Type.
Variable cls : BenchmarkClass Heap Err.
Variable performance_now : Heap -> float * Heap.

Lemma failure_deferred (c : completion Err) : failure (deferred c) = failure c.
Proof. destruct c; reflexivity. Qed.

Lemma promisified_fst (m : method Heap Err) (s : Store Heap) :
  fst (promisified m s) = deferred (fst (m s)).
Proof. unfold promisified. destruct (m s); reflexivity. Qed.

Lemma promisified_snd (m : method Heap Err) (s : Store Heap) :
  snd (promisified m s) = snd (m s).
Proof. unfold promisified. destruct (m s); reflexivity. Qed.

Lemma next_promisified (fuel : nat) (r r' : Run Heap Err) :
  store r = store r' ->
  elapsed r = elapsed r' ->
  samples r = samples r' ->
  snd (next (Promisified cls) performance_now fuel r)
  = snd (next cls performance_now fuel r') /\
  store (fst (next (Promisified cls) performance_now fuel r))
  = store (fst (next cls performance_now fuel r')) /\
  elapsed (fst (next (Promisified cls) performance_now fuel r))
  = elapsed (fst (next cls performance_now fuel r')) /\
  samples (fst (next (Promisified cls) performance_now fuel r))
  = samples (fst (next cls performance_now fuel r')).
Proof.
  revert r r'; induction fuel as [|fuel IH]; intros r r' Hs He Hx;
    rewrite !next_unfold; cbv zeta; rewrite He, Hx;
    destruct (enough (elapsed r') (samples r')).
  - rewrite !invoke_spec. cbn [store observe body Promisified teardown].
    rewrite promisified_fst, promisified_snd, failure_deferred, Hs.
    destruct (failure (fst (teardown cls (store r')))); cbn; rewrite ?Hx; auto.
  - cbn. auto.
  - rewrite !invoke_spec. cbn [store observe body Promisified teardown].
    rewrite promisified_fst, promisified_snd, failure_deferred, Hs.
    destruct (failure (fst (teardown cls (store r')))); cbn; rewrite ?Hx; auto.
  - rewrite !now_spec, !invoke_spec.
    cbn [store observe heap this elapsed samples trace body Promisified bench].
    rewrite promisified_fst, promisified_snd, failure_deferred, Hs.
    destruct (failure (fst (bench cls _))); [cbn; auto|].
    rewrite !now_spec.
    cbn [store observe heap this elapsed samples trace].
    apply IH; cbn [record store elapsed samples]; congruence.
Qed.

(** X7.  Whether [bench] and [teardown] complete on the spot or through a
    promise makes no difference to a run: with both turned into methods
    that answer with a promise, the run has the same outcome, the same
    samples, the same running total and leaves the same store. *)
Theorem promisified_hooks_same_run (fuel : nat) (s : Store Heap) :
  snd (run (Promisified cls) performance_now fuel s)
  = snd (run cls performance_now fuel s) /\
  store (fst (run (Promisified cls) performance_now fuel s))
  = store (fst (run cls performance_now fuel s)) /\
  elapsed (fst (run (Promisified cls) performance_now fuel s))
  = elapsed (fst (run cls performance_now fuel s)) /\
  samples (fst (run (Promisified cls) performance_now fuel s))
  = samples (fst (run cls performance_now fuel s)).
Proof.
  rewrite !run_unfold. cbv zeta. rewrite !invoke_spec.
  cbn [store body Promisified setup].
  destruct (fst (setup cls s)); cbn [fst snd store elapsed samples]; auto;
    apply next_promisified; reflexivity.
Qed.

End Promises.

(** ** The claims on the scripted page *)

Section ScriptedClock.

Variable cls : BenchmarkClass Page string.
Variable reading : nat -> float.
Variable ending : nat -> completion string.

Hypothesis setup_noop : setup cls = noop.
Hypothesis bench_scripted : bench cls = scripted ending.




End ScriptedClock.




Lemma both_at (xs : list float) (n : nat) :
  List.length xs = n -> both xs (List.length xs) -> both xs n.
Proof. intros <-. auto. Qed.



Section ScriptedPage.

Local Abbreviation steady := (run Steady (page_now (laps 50)) 211 fresh).
Local Abbreviation short := (run Steady (page_now (laps 50)) 100 fresh).
Local Abbreviation flaky := (run (Flaky 3 "boom") (page_now (laps 50)) 211 fresh).
Local Abbreviation unready :=
  (run (Unready "not ready") (page_now (laps 50)) 211 fresh).
Local Abbreviation skewed := (run Plain (page_now set_back) 211 fresh).
Local Abbreviation drift := (run Steady (page_now drifting) 300 fresh).
Local Abbreviation drift_samples := (0x1.fffffffffffffp-1 :: repeat 1 299).
Local Abbreviation fifties := (repeat 50 211).
Local Abbreviation drift_two := [0x1.fffffffffffffp-1; 1].

Lemma steady_fulfilled : snd steady = Fulfilled (repeat 50 211).
Proof. vm_compute; reflexivity. Qed.

(** Scenario B of the specification: at 50 per call the running total
    reaches 300 after 6 samples, and sampling goes on to 211 samples; with
    room for 100 samples only, the run takes them all and is still
    sampling. *)
Lemma loop_stops_at_first_index_witness :
  (no_failure_of Bench (trace (fst steady)) /\
   invocations Bench (trace (fst steady)) = 211%nat /\
   (300 <=? total (firstn 6 (samples (fst steady)))) = true /\
   ~ both (samples (fst steady)) 6 /\
   both (samples (fst steady)) 211) /\
  (no_failure_of Bench (trace (fst short)) /\
   snd short = Pending /\
   List.length (samples (fst short)) = 100%nat).
Proof.
  assert (H : no_failure_of Bench (trace (fst steady)))
    by (apply no_failure_of_test; vm_compute; reflexivity).
  assert (H' : no_failure_of Bench (trace (fst short)))
    by (apply no_failure_of_test; vm_compute; reflexivity).
  destruct (@loop_stops_at_first_index Page string Steady (page_now (laps 50))
              211 fresh H) as (Hn & Hfirst & Hstop & Hret & _).
  destruct (@loop_stops_at_first_index Page string Steady (page_now (laps 50))
              100 fresh H') as (_ & _ & _ & _ & Hgo).
  assert (Hlen : List.length (samples (fst steady)) = 211%nat)
    by (vm_compute; reflexivity).
  assert (Hful : snd steady = Fulfilled (samples (fst steady)))
    by (vm_compute; reflexivity).
  assert (Hlen' : List.length (samples (fst short)) = 100%nat)
    by (vm_compute; reflexivity).
  assert (Hs' : no_failure_of Setup (trace (fst short)))
    by (apply no_failure_of_test; vm_compute; reflexivity).
  assert (Hnot : ~ both (samples (fst short)) (List.length (samples (fst short)))).
  { intros [_ Hgt]. apply (Nat.lt_irrefl 100).
    apply Nat.lt_trans with (2 := eq_ind _ (fun n => (210 < n)%nat) Hgt _ Hlen').
    repeat constructor. }
  split; [split; [exact H | split; [|split; [|split]]] | split; [exact H'|]].
  - exact (eq_trans Hn Hlen).
  - vm_compute; reflexivity.
  - apply Hfirst; rewrite Hlen; lia.
  - exact (@both_at _ _ Hlen (proj1 Hstop (proj2 (Hret _ Hful)))).
  - exact (Hgo Hs' Hnot).
Defined.

(** The clock reads 0, 1 - 2^-53, 1, 2, 2, 3, 3, 4, ... and never goes back.
    The second addition to [elapsed], (1 - 2^-53) + 1, is rounded up to 2,
    and the run stops after 300 samples with [elapsed = 300], although the
    sum of the 300 samples is 300 - 2^-53, below 300. *)
Lemma stops_below_sum_counterexample :
  forallb (fun n => drifting n <=? drifting (S n)) (seq 0 600) = true /\
  snd drift = Fulfilled drift_samples /\
  elapsed (fst drift) = 300 /\
  (exact_sum drift_samples < 300)%Q.
Proof.
  split; [vm_compute; reflexivity|].
  split; [vm_compute; reflexivity|].
  split; [vm_compute; reflexivity|].
  vm_compute; reflexivity.
Qed.

(** On the same clock, when the stopping test is evaluated after the second
    sample, [elapsed] is 2 and the sum of the two samples is 2 - 2^-53; the
    run fulfils with samples whose sum is not >= 300. *)
Lemma elapsed_above_sum_counterexample :
  In (Checked 2 drift_two) (trace (fst drift)) /\
  (exact_sum drift_two < value 2)%Q /\
  exists xs : list float,
    snd drift = Fulfilled xs /\
    (211 <= List.length xs)%nat /\
    ~ (300 <= exact_sum xs)%Q.
Proof.
  split; [apply nth_error_In with (n := 12%nat); vm_compute; reflexivity|].
  split; [vm_compute; reflexivity|].
  exists drift_samples.
  split; [vm_compute; reflexivity|].
  split; [vm_compute; repeat constructor|].
  apply Qlt_not_le. vm_compute; reflexivity.
Qed.

Lemma hook_order_of_completed_run_witness :
  snd steady <> Pending /\ hook_order (trace (fst steady)).
Proof.
  assert (H : snd steady <> Pending) by (vm_compute; discriminate).
  split; [exact H|].
  apply (@hook_order_of_completed_run Page string Steady (page_now (laps 50))
           211 fresh H).
  - apply no_failure_of_test; vm_compute; reflexivity.
  - apply no_failure_of_test; vm_compute; reflexivity.
Defined.

(** A run whose [setup] rejects calls neither [bench] nor [teardown]. *)
Lemma hook_order_counterexample :
  snd unready = Rejected "not ready"%string /\
  hook_events (trace (fst unready))
  = [Invoked Setup; Settled Setup (Rejects "not ready"%string)] /\
  ~ hook_order (trace (fst unready)).
Proof.
  assert (E : hook_events (trace (fst unready))
              = [Invoked Setup; Settled Setup (Rejects "not ready"%string)])
    by (vm_compute; reflexivity).
  split; [vm_compute; reflexivity | split; [exact E|]].
  intros (c0 & cs & c1 & H & Hlen). rewrite E in H.
  destruct cs as [|c cs]; cbn in H, Hlen; [lia | discriminate].
Qed.

Lemma bench_failure_aborts_run_witness :
  In (Settled Bench (Throws "boom"%string)) (trace (fst flaky)) /\
  snd flaky = Rejected "boom"%string /\
  invocations Bench (trace (fst flaky)) = S (List.length (samples (fst flaky))) /\
  invocations Teardown (trace (fst flaky)) = 0%nat.
Proof.
  assert (H : In (Settled Bench (Throws "boom"%string)) (trace (fst flaky)))
    by (vm_compute; repeat (first [left; reflexivity | right])).
  destruct (@bench_failure_aborts_run Page string (Flaky 3 "boom")
              (page_now (laps 50)) 211 fresh (Throws "boom"%string) "boom"%string
              H eq_refl) as (Ho & Hn & Ht & _).
  exact (conj H (conj Ho (conj Hn Ht))).
Defined.

(** The third call of [bench] throws: the run rejects with the thrown value
    as it is, after three calls and two samples, and [teardown] is never
    called. *)
Lemma teardown_skipped_counterexample :
  snd flaky = Rejected "boom"%string /\
  invocations Bench (trace (fst flaky)) = 3%nat /\
  samples (fst flaky) = [50; 50] /\
  ~ In (Invoked Teardown) (trace (fst flaky)).
Proof.
  split; [vm_compute; reflexivity|].
  split; [vm_compute; reflexivity|].
  split; [vm_compute; reflexivity|].
  intros H. vm_compute in H. intuition discriminate.
Qed.




Lemma default_getArguments_witness :
  getArguments Steady = [ {| label := ""; options := object [] |} ].
Proof.
  exact (proj1 (@default_getArguments Page string
                  {| own_getArguments := None;
                     own_setup := None;
                     own_bench := Some (scripted (fun _ => Resolves));
                     own_teardown := None |} eq_refl)).
Defined.

Lemma samples_in_collection_order_witness :
  snd steady = Fulfilled (repeat 50 211) /\
  List.length (repeat 50 211) = invocations Bench (trace (fst steady)).
Proof.
  split; [exact steady_fulfilled|].
  destruct (@samples_in_collection_order Page string Steady (page_now (laps 50))
              211 fresh (repeat 50 211) steady_fulfilled)
    as (c0 & ms & c1 & _ & _ & _ & Hn).
  exact Hn.
Defined.



(** *** The further properties on the scripted page *)

Local Abbreviation untidy := (run (Untidy "stuck") (page_now (laps 50)) 211 fresh).
Local Abbreviation stalled :=
  (run (@Benchmark_class Page string) (page_now (fun _ => 0)) 500 fresh).

Lemma setup_failure_aborts_run_witness :
  In (Settled Setup (Rejects "not ready"%string)) (trace (fst unready)) /\
  snd unready = Rejected "not ready"%string /\
  invocations Bench (trace (fst unready)) = 0%nat.
Proof.
  assert (H : In (Settled Setup (Rejects "not ready"%string)) (trace (fst unready)))
    by (vm_compute; right; left; reflexivity).
  destruct (@setup_failure_aborts_run Page string (Unready "not ready")
              (page_now (laps 50)) 211 fresh (Rejects "not ready"%string)
              "not ready"%string H eq_refl) as (_ & _ & Hb & _ & Ho).
  exact (conj H (conj Ho Hb)).
Defined.

Lemma teardown_failure_rejects_run_witness :
  In (Settled Teardown (Throws "stuck"%string)) (trace (fst untidy)) /\
  snd untidy = Rejected "stuck"%string /\
  (211 <= List.length (samples (fst untidy)))%nat /\
  (300 <=? total (samples (fst untidy))) = true.
Proof.
  assert (H : In (Settled Teardown (Throws "stuck"%string)) (trace (fst untidy))).
  { apply nth_error_In with (n := 1059%nat). vm_compute; reflexivity. }
  destruct (@teardown_failure_rejects_run Page string (Untidy "stuck")
              (page_now (laps 50)) 211 fresh (Throws "stuck"%string)
              "stuck"%string H eq_refl) as (Ho & Hn & Ht & _).
  exact (conj H (conj Ho (conj Hn Ht))).
Defined.

Lemma setup_once_teardown_last_witness :
  In (Invoked Teardown) (trace (fst steady)) /\
  exists (tr0 : list (event string)) (c : completion string),
    trace (fst steady) = tr0 ++ [Invoked Teardown; Settled Teardown c] /\
    invocations Teardown tr0 = 0%nat.
Proof.
  assert (H : In (Invoked Teardown) (trace (fst steady))).
  { apply nth_error_In with (n := 1058%nat). vm_compute; reflexivity. }
  split; [exact H|].
  exact (proj2 (proj2 (proj2 (@setup_once_teardown_last Page string Steady
                                (page_now (laps 50)) 211 fresh))) H).
Defined.

(** The base class on a page whose clock stands still: 500 calls of the
    empty [bench] later the run is still sampling. *)
Lemma run_never_ends_on_stalled_clock_witness :
  snd stalled = Pending /\
  List.length (samples (fst stalled)) = 500%nat /\
  invocations Bench (trace (fst stalled)) = 500%nat /\
  invocations Teardown (trace (fst stalled)) = 0%nat.
Proof.
  apply (@run_never_ends_on_stalled_clock Page string Benchmark_class
           (page_now (fun _ => 0))).
  - intros s. reflexivity.
  - intros s. reflexivity.
  - intros s _ _. reflexivity.
Defined.

Lemma clock_read_twice_per_sample_witness :
  no_failure_of Bench (trace (fst steady)) /\
  readings (trace (fst steady)) = (2 * List.length (samples (fst steady)))%nat.
Proof.
  assert (H : no_failure_of Bench (trace (fst steady)))
    by (apply no_failure_of_test; vm_compute; reflexivity).
  split; [exact H|].
  exact (@clock_read_twice_per_sample Page string Steady (page_now (laps 50))
           211 fresh H).
Defined.

Lemma sample_count_of_fulfilled_run_witness :
  List.length (repeat 50 211) = 211%nat
  <-> (300 <=? total (firstn 211 (repeat 50 211))) = true.
Proof.
  exact (proj1 (@sample_count_of_fulfilled_run Page string Steady
                  (page_now (laps 50)) 211 fresh (repeat 50 211) steady_fulfilled)).
Defined.


End ScriptedPage.
